(** * Shallow embedding of the claircore AWS updater, the driver contract
      and the distributed lock contract.

    Sources embedded here:
    - [libvuln/driver/updater.go]: [Fingerprint], [Unchanged],
      [ConfigUnmarshaler];
    - [aws/updater.go]: [Updater], [NewUpdater], [Name], [Fetch], [Parse],
      [Configure], [unpack], [refsToLinks];
    - [pkg/distlock/locker.go]: the [Locker] interface and the postgres
      test helper [InsertScannerList].

    Go library calls ([time.Parse], [url.Parse], the [alas] repository
    metadata lookup) and the network are explicit parameters or small
    executable models. *)

From Stdlib Require Import String Ascii List Bool Arith NArith ZArith Lia.
Import ListNotations.
Open Scope string_scope.
Open Scope list_scope.
Open Scope nat_scope.

(* ------------------------------------------------------------------ *)
(** ** Errors, Go's [error] values *)

Inductive error :=
| Unchanged                        (** driver.Unchanged *)
| ErrText (msg : string)           (** a leaf error from a library call *)
| Errorf (prefix : string) (inner : error)  (** fmt.Errorf("prefix: %v", err) *)
| ErrTimeParse (value : string).   (** the *time.ParseError of time.Parse *)

(** A Go call returning [(T, error)] with exactly one of them meaningful. *)
Inductive result (A : Type) :=
| Ok (a : A)
| Err (e : error).
Arguments Ok {A} a.
Arguments Err {A} e.

(** driver.Fingerprint *)
Definition Fingerprint := string.

(** time.Duration, in nanoseconds. *)
Definition Duration := N.
Definition Second : Duration := 1000000000%N.

(* ------------------------------------------------------------------ *)
(** ** time.Parse with the layout "2006-01-02 15:04" *)

Record Time := mkTime {
  t_year : nat; t_month : nat; t_day : nat; t_hour : nat; t_min : nat
}.

Definition digit_val (c : ascii) : option nat :=
  let n := nat_of_ascii c in
  if (48 <=? n) && (n <=? 57) then Some (n - 48) else None.

Definition is_digit (c : ascii) : bool :=
  match digit_val c with Some _ => true | None => false end.

(** getnum(s, fixed): one or two leading digits; exactly two when [fixed]. *)
Definition getnum (s : string) (fixed : bool) : option (nat * string) :=
  match s with
  | String c0 rest =>
      match digit_val c0 with
      | None => None
      | Some d0 =>
          match rest with
          | String c1 rest' =>
              match digit_val c1 with
              | Some d1 => Some (d0 * 10 + d1, rest')
              | None => if fixed then None else Some (d0, rest)
              end
          | EmptyString => if fixed then None else Some (d0, rest)
          end
      end
  | EmptyString => None
  end.

(** stdLongYear: four characters, the first a digit, converted by atoi. *)
Definition getyear (s : string) : option (nat * string) :=
  match s with
  | String a (String b (String c (String d rest))) =>
      match digit_val a, digit_val b, digit_val c, digit_val d with
      | Some a', Some b', Some c', Some d' =>
          Some (a' * 1000 + b' * 100 + c' * 10 + d', rest)
      | _, _, _, _ => None
      end
  | _ => None
  end.

(** A literal character of the layout; a space in the layout matches a
    non-empty run of spaces of the value (time.skip). *)
Fixpoint cutspace (s : string) : string :=
  match s with
  | String " " rest => cutspace rest
  | _ => s
  end.

Definition lit (c : ascii) (s : string) : option string :=
  match s with
  | String c' rest =>
      if Ascii.eqb c c' then
        (if Ascii.eqb c " " then Some (cutspace rest) else Some rest)
      else None
  | EmptyString => None
  end.

Definition is_leap (y : nat) : bool :=
  (Nat.eqb (y mod 4) 0 && negb (Nat.eqb (y mod 100) 0)) || Nat.eqb (y mod 400) 0.

Definition daysIn (m y : nat) : nat :=
  match m with
  | 2 => if is_leap y then 29 else 28
  | 4 | 6 | 9 | 11 => 30
  | _ => 31
  end.

Definition bind_opt {A B} (o : option A) (k : A -> option B) : option B :=
  match o with Some a => k a | None => None end.

(** time.Parse("2006-01-02 15:04", value) *)
Definition go_time_parse (value : string) : option Time :=
  bind_opt (getyear value) (fun '(y, s) =>
  bind_opt (lit "-" s) (fun s =>
  bind_opt (getnum s true) (fun '(mo, s) =>
  if (mo =? 0) || (12 <? mo) then None else
  bind_opt (lit "-" s) (fun s =>
  bind_opt (getnum s true) (fun '(d, s) =>
  if 31 <? d then None else
  bind_opt (lit " " s) (fun s =>
  bind_opt (getnum s false) (fun '(h, s) =>
  if 24 <=? h then None else
  bind_opt (lit ":" s) (fun s =>
  bind_opt (getnum s true) (fun '(mi, s) =>
  if 60 <=? mi then None else
  match s with
  | EmptyString =>
      if (d =? 0) || (daysIn mo y <? d) then None
      else Some (mkTime y mo d h mi)
  | _ => None
  end))))))))).

(* ------------------------------------------------------------------ *)
(** ** Data model *)

(** aws.Release, a string type printed by %v as itself. *)
Definition Release := string.

(** The content of an io.ReadCloser. *)
Definition Stream := string.

(** A parsed *url.URL, kept as its string form. *)
Definition URL := string.

(** alas.Package, alas.Reference, alas.Update (the fields the updater reads). *)
Record Package := mkPackage { pkg_Name : string; pkg_Version : string; pkg_Release : string }.
Record Reference := mkReference { ref_Href : string }.
Record Update := mkUpdate {
  upd_ID : string;
  upd_Issued_Date : string;
  upd_Description : string;
  upd_Severity : string;
  upd_References : list Reference;
  upd_Packages : list Package
}.
(** alas.Updates: the repeating <update> elements. *)
Definition Updates := list Update.

(** claircore.Severity *)
Inductive Severity := Unknown | Negligible | Low | Medium | High | Critical.

(** claircore.Distribution (the fields relevant here). *)
Record Distribution := mkDistribution {
  dist_Name : string; dist_VersionID : string; dist_PrettyName : string
}.

(** claircore.Package as built by unpack. *)
Record CPackage := mkCPackage { cpkg_Name : string; cpkg_Kind : string }.

(** claircore.Vulnerability (the fields Parse sets). *)
Record Vulnerability := mkVulnerability {
  v_Updater : string;
  v_Name : string;
  v_Description : string;
  v_Issued : option Time;          (** [None] is Go's zero time.Time *)
  v_Links : string;
  v_Severity : string;
  v_NormalizedSeverity : Severity;
  v_Dist : Distribution;
  v_Package : option CPackage;     (** [None] is a nil *claircore.Package *)
  v_FixedInVersion : string
}.

(** An *http.Client, identified by a handle. *)
Definition HttpClient := nat.

(** aws.Client: the bound http client and the candidate mirrors. *)
Record Client := mkClient { cl_c : option HttpClient; cl_mirrors : list URL }.

(** aws.Updater *)
Record Updater := mkUpdater {
  release : Release;
  Timeout : Duration;
  Mirrors : list string;
  client : option Client             (** [None] is a nil *Client *)
}.

(** Modelled from the spec: [defaultOpTimeout], declared in the aws package
    outside the embedded files; the spec and the comment on
    [Updater.Timeout] give it as 15 seconds. *)
Definition defaultOpTimeout : Duration := (15 * Second)%N.

(** NewUpdater(release) returns a pointer to an Updater and an error; [None] is nil. *)
Definition NewUpdater (r : Release) : option Updater * option error :=
  (Some {| release := r; Timeout := defaultOpTimeout; Mirrors := []; client := None |},
   None).

(** fmt.Sprintf("aws-%v-updater", u.release) *)
Definition Name (u : Updater) : string := "aws-" ++ release u ++ "-updater".

(** refsToLinks: the hrefs joined with a single space. *)
Definition refsToLinks (up : Update) : string :=
  String.concat " " (map ref_Href (upd_References up)).

(** unpack: one copy of [partial] per package, with the package fields set. *)
Fixpoint unpack_loop (partial : Vulnerability) (packages : list Package)
    (out : list Vulnerability) : list Vulnerability :=
  match packages with
  | [] => out
  | alasPKG :: rest =>
      let v := {| v_Updater := v_Updater partial;
                  v_Name := v_Name partial;
                  v_Description := v_Description partial;
                  v_Issued := v_Issued partial;
                  v_Links := v_Links partial;
                  v_Severity := v_Severity partial;
                  v_NormalizedSeverity := v_NormalizedSeverity partial;
                  v_Dist := v_Dist partial;
                  v_Package := Some (mkCPackage (pkg_Name alasPKG) "binary");
                  v_FixedInVersion := pkg_Version alasPKG ++ "-" ++ pkg_Release alasPKG |} in
      unpack_loop partial rest (out ++ [v])
  end.

Definition unpack (u : Updater) (partial : Vulnerability) (packages : list Package)
    : list Vulnerability :=
  unpack_loop partial packages [].

Section ParseSec.
(** xml.NewDecoder(contents).Decode(&updates) *)
Variable xml_decode : Stream -> result Updates.
(** time.Parse("2006-01-02 15:04", _) *)
Variable time_parse : string -> option Time.
(** aws.NormalizeSeverity and aws.releaseToDist, declared in the aws
    package outside the embedded files: any functions. *)
Variable NormalizeSeverity : string -> Severity.
Variable releaseToDist : Release -> Distribution.

(** The advisory-level record built for one update. *)
Definition partial_of (u : Updater) (dist : Distribution) (up : Update) (issued : Time)
    : Vulnerability :=
  {| v_Updater := Name u;
     v_Name := upd_ID up;
     v_Description := upd_Description up;
     v_Issued := Some issued;
     v_Links := refsToLinks up;
     v_Severity := upd_Severity up;
     v_NormalizedSeverity := NormalizeSeverity (upd_Severity up);
     v_Dist := dist;
     v_Package := None;
     v_FixedInVersion := "" |}.

(** The for-range loop of Parse, with [vulns] as accumulator. *)
Fixpoint parse_loop (u : Updater) (dist : Distribution) (ups : list Update)
    (vulns : list Vulnerability) : list Vulnerability * option error :=
  match ups with
  | [] => (vulns, None)
  | up :: rest =>
      match time_parse (upd_Issued_Date up) with
      | None => (vulns, Some (ErrTimeParse (upd_Issued_Date up)))
      | Some issued =>
          parse_loop u dist rest
            (vulns ++ unpack u (partial_of u dist up issued) (upd_Packages up))
      end
  end.

Definition Parse (u : Updater) (contents : Stream) : list Vulnerability * option error :=
  match xml_decode contents with
  | Err e => ([], Some (Errorf "failed to unmarshal updates xml" e))
  | Ok updates => parse_loop u (releaseToDist (release u)) updates []
  end.
End ParseSec.

(* ------------------------------------------------------------------ *)
(** ** Repository metadata (the [alas] package) and Fetch *)

(** alas.Repo and alas.RepoMD (the fields the updater reads). *)
Record Repo := mkRepo { repo_Type : string; repo_Checksum_Sum : string }.
Record RepoMDT := mkRepoMD { repo_List : list Repo }.

(** alas.UpdateInfo *)
Definition UpdateInfo : string := "updateinfo".

(** RepoMD.Repo(t, mirror) with an empty mirror: the first entry of the
    requested type, an error when there is none. *)
Fixpoint find_repo (t : string) (l : list Repo) : result Repo :=
  match l with
  | [] => Err (ErrText ("repo type " ++ t ++ " not found"))
  | r :: rest => if String.eqb (repo_Type r) t then Ok r else find_repo t rest
  end.

Definition alas_Repo (md : RepoMDT) (t : string) (mirror : string) : result Repo :=
  find_repo t (repo_List md).

Section FetchSec.
(** The network as seen through aws.Client: NewClient(ctx, release),
    client.RepoMD(tctx) and client.Updates(tctx), where [tctx] carries the
    per-call timeout. *)
Variable NewClient : Release -> result Client.
Variable RepoMD : Client -> Duration -> result RepoMDT.
Variable Updates_call : Client -> Duration -> result Stream.

(** Fetch from the point where a client is at hand (lines 61-80). *)
Definition fetch_with (u : Updater) (c : Client) (fingerprint : Fingerprint)
    : option Stream * Fingerprint * option error :=
  match RepoMD c (Timeout u) with
  | Err err => (None, "", Some (Errorf "failed to retrieve repo metadata" err))
  | Ok repoMD =>
      match alas_Repo repoMD UpdateInfo "" with
      | Err err =>
          (None, "", Some (Errorf "updates repo metadata could not be retrieved" err))
      | Ok updatesRepoMD =>
          match Updates_call c (Timeout u) with
          | Err err => (None, "", Some (Errorf "failed to retrieve update info" err))
          | Ok rc => (Some rc, repo_Checksum_Sum updatesRepoMD, None)
          end
      end
  end.

(** (u *Updater) Fetch(ctx, fingerprint) *)
Definition Fetch (u : Updater) (fingerprint : Fingerprint)
    : option Stream * Fingerprint * option error :=
  match client u with
  | Some c => fetch_with u c fingerprint
  | None =>
      match NewClient (release u) with
      | Err err => (None, "", Some (Errorf "failed to create client" err))
      | Ok c => fetch_with u c fingerprint
      end
  end.

(** The client a Fetch on [u] works with: the bound one, or the one
    NewClient creates for this call. *)
Definition client_used (u : Updater) (c : Client) : Prop :=
  client u = Some c \/ (client u = None /\ NewClient (release u) = Ok c).
End FetchSec.

(* ------------------------------------------------------------------ *)
(** ** Configure *)

(** driver.ConfigUnmarshaler applied to an *Updater: it can only populate the
    exported fields (Timeout, Mirrors), and may fail after doing so. *)
Definition ConfigUnmarshaler := Duration * list string -> (Duration * list string) * option error.

Definition set_config (u : Updater) (t : Duration) (ms : list string) : Updater :=
  {| release := release u; Timeout := t; Mirrors := ms; client := client u |}.

Definition set_client (u : Updater) (c : Client) : Updater :=
  {| release := release u; Timeout := Timeout u; Mirrors := Mirrors u; client := Some c |}.

Definition set_mirrors (c : Client) (ms : list URL) : Client :=
  {| cl_c := cl_c c; cl_mirrors := ms |}.

Section ConfigureSec.
(** url.Parse *)
Variable url_parse : string -> result URL.
(** (c *Client) getMirrors(ctx, release), declared in the aws package
    outside the embedded files: any behaviour.  It has a pointer receiver
    and stores what it resolves in the client it is called on, so it is
    given the bound client and returns that client as it leaves it, with
    its error (what it stored before failing stays in the client). *)
Variable getMirrors : Client -> Duration -> Release -> Client * option error.

(** The for-range loop over u.Mirrors appending to u.client.mirrors. *)
Fixpoint mirrors_loop (cl : Client) (ms : list string) : Client * option error :=
  match ms with
  | [] => (cl, None)
  | m :: rest =>
      match url_parse m with
      | Err err => (cl, Some (Errorf "failed to create client" err))
      | Ok mu => mirrors_loop (set_mirrors cl (cl_mirrors cl ++ [mu])) rest
      end
  end.

(** (u *Updater) Configure(ctx, f, c); returns the updater as left behind. *)
Definition Configure (u : Updater) (f : ConfigUnmarshaler) (c : option HttpClient)
    : Updater * option error :=
  let '((t, ms), ferr) := f (Timeout u, Mirrors u) in
  let u1 := set_config u t ms in
  match ferr with
  | Some err => (u1, Some err)
  | None =>
      let '(cl, merr) := mirrors_loop (mkClient c []) (Mirrors u1) in
      match merr with
      | Some err => (set_client u1 cl, Some err)
      | None =>
          if Nat.eqb (length (cl_mirrors cl)) 0 then
            let '(cl', gerr) := getMirrors cl (Timeout u1) (release u1) in
            match gerr with
            | Some err => (set_client u1 cl', Some (Errorf "failed to create client" err))
            | None => (set_client u1 cl', None)
            end
          else (set_client u1 cl, None)
      end
  end.
End ConfigureSec.

(* ------------------------------------------------------------------ *)
(** ** The distributed lock *)

Module Distlock.

Definition Key := string.
(** A Locker value (one per worker). *)
Definition Handle := nat.

(** The synchronization point: the outstanding grants, key and holder. *)
Definition State := list (Key * Handle).

Definition key_taken (s : State) (k : Key) : bool :=
  existsb (fun g => String.eqb (fst g) k) s.

Definition holds_any (s : State) (h : Handle) : bool :=
  existsb (fun g => Nat.eqb (snd g) h) s.

(** Modelled from the spec: an implementation of the distlock.Locker
    interface, whose implementations are outside the embedded files.
    Acquisition is one atomic step; a handle holds at most one grant and a
    second acquisition by it contends (no recursive locking); Unlock
    releases the grant of the handle. *)
Definition acquirable (s : State) (h : Handle) (k : Key) : bool :=
  negb (key_taken s k || holds_any s h).

Definition TryLock (s : State) (h : Handle) (k : Key) : State * bool :=
  if acquirable s h k then ((k, h) :: s, true) else (s, false).

Definition Unlock (s : State) (h : Handle) : State :=
  filter (fun g => negb (Nat.eqb (snd g) h)) s.

Inductive Event :=
| EvLock (h : Handle) (k : Key)        (** Lock returning nil *)
| EvLockCancel (h : Handle) (k : Key)  (** Lock giving up on its context *)
| EvTryLock (h : Handle) (k : Key)
| EvUnlock (h : Handle).

(** One atomic step and whether the call reports an acquired grant; [None]
    when the call cannot return in this state (Lock still blocking). *)
Definition step (s : State) (e : Event) : option (State * bool) :=
  match e with
  | EvLock h k => if acquirable s h k then Some ((k, h) :: s, true) else None
  | EvLockCancel h k => if acquirable s h k then None else Some (s, false)
  | EvTryLock h k => Some (TryLock s h k)
  | EvUnlock h => Some (Unlock s h, false)
  end.

(** States reachable by any interleaving of calls of any handles. *)
Inductive reachable : State -> Prop :=
| reach_init : reachable []
| reach_step s e s' b : reachable s -> step s e = Some (s', b) -> reachable s'.

Definition acquires (e : Event) (h : Handle) (k : Key) : Prop :=
  e = EvLock h k \/ e = EvTryLock h k.

(** The invariant of the synchronization point: one grant per key and
    per handle. *)
Definition well_formed (s : State) : Prop :=
  NoDup (map fst s) /\ NoDup (map snd s).

End Distlock.

(* ------------------------------------------------------------------ *)
(** ** Concrete instances of the library calls, for evaluation *)

(** A url.Parse that refuses what Go refuses most often: ASCII control
    characters and a missing scheme before a leading colon. *)
Definition ex_url_parse (s : string) : result URL :=
  match s with
  | String ":" _ => Err (ErrText "missing protocol scheme")
  | _ =>
      if existsb (fun c => (nat_of_ascii c <? 32) || (nat_of_ascii c =? 127)) (list_ascii_of_string s)
      then Err (ErrText "invalid control character in URL")
      else Ok s
  end.

Definition ex_NormalizeSeverity (s : string) : Severity :=
  if String.eqb s "low" then Low
  else if String.eqb s "medium" then Medium
  else if String.eqb s "important" then High
  else if String.eqb s "critical" then Critical
  else Unknown.

Definition ex_releaseToDist (r : Release) : Distribution :=
  mkDistribution "Amazon Linux" r ("Amazon Linux " ++ r).

Definition ex_pkg1 := mkPackage "kernel" "4.14.77" "70.59.amzn1".
Definition ex_pkg2 := mkPackage "kernel-headers" "4.14.77" "70.59.amzn1".

Definition ex_upd (id date : string) (pkgs : list Package) : Update :=
  mkUpdate id date "advisory" "important"
    [mkReference "https://a.example/1"; mkReference "https://a.example/2"] pkgs.

(** Three advisories, the second with an issue date the layout rejects. *)
Definition ex_doc3 : Updates :=
  [ex_upd "ALAS-2018-1101" "2018-11-13 21:38" [ex_pkg1; ex_pkg2];
   ex_upd "ALAS-2018-1102" "13/11/2018" [ex_pkg1];
   ex_upd "ALAS-2018-1103" "2018-11-14 10:00" [ex_pkg2]].

(** An XML decoder over the two example streams. *)
Definition ex_xml_decode (s : Stream) : result Updates :=
  if String.eqb s "doc3" then Ok ex_doc3
  else if String.eqb s "doc1" then Ok [ex_upd "ALAS-2018-1101" "2018-11-13 21:38" [ex_pkg1; ex_pkg2]]
  else Err (ErrText "EOF").

Definition ex_updater : Updater :=
  match fst (NewUpdater "2") with Some u => u | None => mkUpdater "" 0%N [] None end.

Definition ex_Parse := Parse ex_xml_decode go_time_parse ex_NormalizeSeverity ex_releaseToDist.

(** The record unpack builds for one package. *)
Definition with_package (partial : Vulnerability) (p : Package) : Vulnerability :=
  {| v_Updater := v_Updater partial;
     v_Name := v_Name partial;
     v_Description := v_Description partial;
     v_Issued := v_Issued partial;
     v_Links := v_Links partial;
     v_Severity := v_Severity partial;
     v_NormalizedSeverity := v_NormalizedSeverity partial;
     v_Dist := v_Dist partial;
     v_Package := Some (mkCPackage (pkg_Name p) "binary");
     v_FixedInVersion := pkg_Version p ++ "-" ++ pkg_Release p |}.

(** The records of the advisories of a document whose dates all parse. *)
Definition advisory_records time_parse NS (u : Updater) dist (up : Update) : list Vulnerability :=
  match time_parse (upd_Issued_Date up) with
  | Some issued => unpack u (partial_of NS u dist up issued) (upd_Packages up)
  | None => []
  end.

(** A record whose package has the kind "binary". *)
Definition binary_record (r : Vulnerability) : Prop :=
  exists name, v_Package r = Some (mkCPackage name "binary").

(** Example oracles: a client that always comes up, repository metadata
    listing an updateinfo entry with checksum [sum], and an updates body. *)
Definition ex_NewClient (r : Release) : result Client := Ok (mkClient None []).
Definition ex_RepoMD (sum : string) (c : Client) (t : Duration) : result RepoMDT :=
  Ok (mkRepoMD [mkRepo "primary" "p0"; mkRepo UpdateInfo sum]).
Definition ex_Updates (c : Client) (t : Duration) : result Stream := Ok "doc1".

Definition ex_upd1 := ex_upd "ALAS-2018-1101" "2018-11-13 21:38" [ex_pkg1; ex_pkg2].
Definition ex_upd2 := ex_upd "ALAS-2018-1102" "13/11/2018" [ex_pkg1].
Definition ex_upd3 := ex_upd "ALAS-2018-1103" "2018-11-14 10:00" [ex_pkg2].

Definition ex_mirrors : list string := ["https://cdn.amazonlinux.example/2/core/latest/x86_64/mirror.list"].

Definition ex_unmarshal : ConfigUnmarshaler := fun _ => ((15 * Second)%N, ex_mirrors, None).

Definition ex_lock_state : Distlock.State := [("aws-2-updater", 1)].

(* ------------------------------------------------------------------ *)
(** ** InsertScannerList (the postgres test helper next to the lock) *)

(** claircore.Digest, kept as its string form. *)
Definition Digest := string.

(** The scannerlist table: its (manifest_hash, scanner_id) rows in insertion
    order. *)
Definition ScannerList := list (Digest * nat).

Section InsertSec.
(** pool.Exec(ctx, INSERT INTO scannerlist ..., hash, i): the table after
    the statement, or the error Exec returns. *)
Variable Exec : ScannerList -> Digest -> nat -> result ScannerList.

(** for i := start; i < start + k; i++ { ... } *)
Fixpoint insert_loop (db : ScannerList) (hash : Digest) (i : nat) (k : nat)
    : ScannerList * option error :=
  match k with
  | O => (db, None)
  | S k' =>
      match Exec db hash i with
      | Err err => (db, Some err)
      | Ok db' => insert_loop db' hash (S i) k'
      end
  end.

(** InsertScannerList(ctx, pool, hash, n): the loop runs for i = 0 .. n-1,
    and not at all when n <= 0. *)
Definition InsertScannerList (db : ScannerList) (hash : Digest) (n : Z) : ScannerList * option error :=
  insert_loop db hash 0 (Z.to_nat n).
End InsertSec.

(** An Exec whose INSERT always succeeds and appends its row. *)
Definition exec_appends (Exec : ScannerList -> Digest -> nat -> result ScannerList)
    (hash : Digest) (i : nat) : Prop :=
  forall db, Exec db hash i = Ok (db ++ [(hash, i)]).

(** An example Exec refusing scanner id 2 (a foreign key violation). *)
Definition ex_Exec (db : ScannerList) (hash : Digest) (i : nat) : result ScannerList :=
  if Nat.eqb i 2 then Err (ErrText "violates foreign key constraint")
  else Ok (db ++ [(hash, i)]).

(* ------------------------------------------------------------------ *)
(** ** Helpers for the properties of the updater *)

(** strings.Split(s, " "): the pieces between single spaces. *)
Fixpoint split_sp (s : string) : list string :=
  match s with
  | EmptyString => [EmptyString]
  | String c rest =>
      if Ascii.eqb c " " then EmptyString :: split_sp rest
      else match split_sp rest with
           | w :: ws => String c w :: ws
           | [] => [String c EmptyString]
           end
  end.

Definition no_space (s : string) : Prop :=
  forallb (fun c => negb (Ascii.eqb c " ")) (list_ascii_of_string s) = true.


Definition ex_bad_mirrors : list string := ["https://ok.example/"; ":bad"; "https://never.example/"].

Definition ex_RepoMD_noinfo (c : Client) (t : Duration) : result RepoMDT :=
  Ok (mkRepoMD [mkRepo "primary" "p0"]).

Definition ex_unmarshal_bad : ConfigUnmarshaler := fun _ => ((15 * Second)%N, ex_bad_mirrors, None).

Definition ex_record : Vulnerability :=
  with_package (partial_of ex_NormalizeSeverity ex_updater (ex_releaseToDist "2") ex_upd1
                  (mkTime 2018 11 13 21 38)) ex_pkg2.

(* ------------------------------------------------------------------ *)
(** ** Evaluations of the models *)

Example go_time_parse_ok :
  go_time_parse "2020-02-29 7:05" = Some (mkTime 2020 2 29 7 5).
Proof. reflexivity. Qed.

Example go_time_parse_bad :
  go_time_parse "2021-02-29 07:05" = None /\ go_time_parse "2021/01/01 00:00" = None.
Proof. split; reflexivity. Qed.

Example ex_Parse_doc1 :
  map v_FixedInVersion (fst (ex_Parse ex_updater "doc1"))
    = ["4.14.77-70.59.amzn1"; "4.14.77-70.59.amzn1"]
  /\ map v_Links (fst (ex_Parse ex_updater "doc1"))
    = ["https://a.example/1 https://a.example/2"; "https://a.example/1 https://a.example/2"]
  /\ snd (ex_Parse ex_updater "doc1") = None.
Proof. vm_compute. repeat split. Qed.

Example ex_Parse_doc3 :
  length (fst (ex_Parse ex_updater "doc3")) = 2
  /\ snd (ex_Parse ex_updater "doc3") = Some (ErrTimeParse "13/11/2018").
Proof. vm_compute. split; reflexivity. Qed.

(* ------------------------------------------------------------------ *)
(** ** Parse *)

Lemma unpack_loop_map partial pkgs out :
  unpack_loop partial pkgs out = out ++ map (with_package partial) pkgs.
Proof.
  revert out; induction pkgs as [|p pkgs IH]; intros out; simpl.
  - now rewrite app_nil_r.
  - rewrite IH, <- app_assoc. reflexivity.
Qed.

Lemma parse_loop_acc time_parse NS u dist ups vulns :
  parse_loop time_parse NS u dist ups vulns
  = (vulns ++ fst (parse_loop time_parse NS u dist ups []),
     snd (parse_loop time_parse NS u dist ups [])).
Proof.
  revert vulns; induction ups as [|up ups IH]; intros vulns; simpl.
  - now rewrite app_nil_r.
  - destruct (time_parse (upd_Issued_Date up)) as [t|]; simpl.
    + rewrite IH, (IH (unpack _ _ _)). simpl. now rewrite app_assoc.
    + now rewrite app_nil_r.
Qed.

Lemma parse_loop_all_ok time_parse NS u dist ups :
  (forall up, In up ups -> time_parse (upd_Issued_Date up) <> None) ->
  parse_loop time_parse NS u dist ups [] = (flat_map (advisory_records time_parse NS u dist) ups, None).
Proof.
  induction ups as [|up ups IH]; intros Hok; simpl; [reflexivity|].
  unfold advisory_records at 1.
  destruct (time_parse (upd_Issued_Date up)) as [t|] eqn:Ht.
  - rewrite parse_loop_acc, IH by (intros; apply Hok; now right). reflexivity.
  - exfalso. apply (Hok up); [now left | exact Ht].
Qed.

Lemma parse_loop_stops time_parse NS u dist pre bad post :
  (forall up, In up pre -> time_parse (upd_Issued_Date up) <> None) ->
  time_parse (upd_Issued_Date bad) = None ->
  parse_loop time_parse NS u dist (pre ++ bad :: post) []
  = (flat_map (advisory_records time_parse NS u dist) pre,
     Some (ErrTimeParse (upd_Issued_Date bad))).
Proof.
  induction pre as [|up pre IH]; intros Hok Hbad; simpl.
  - now rewrite Hbad.
  - unfold advisory_records at 1.
    destruct (time_parse (upd_Issued_Date up)) as [t|] eqn:Ht.
    + rewrite parse_loop_acc, IH by first [exact Hbad | intros; apply Hok; now right]. simpl. unfold unpack. reflexivity.
    + exfalso. apply (Hok up); [now left | exact Ht].
Qed.

Lemma Forall2_map_r {A B} (P : A -> B -> Prop) (f : A -> B) (l : list A) :
  (forall x, In x l -> P x (f x)) -> Forall2 P l (map f l).
Proof.
  induction l as [|x l IH]; intros H; simpl; constructor.
  - apply H; now left.
  - apply IH; intros; apply H; now right.
Qed.

Lemma parse_loop_binary time_parse NS u dist ups vulns :
  Forall binary_record vulns ->
  Forall binary_record (fst (parse_loop time_parse NS u dist ups vulns)).
Proof.
  revert vulns; induction ups as [|up ups IH]; intros vulns Hv; simpl; [exact Hv|].
  destruct (time_parse (upd_Issued_Date up)) as [t|]; simpl; [|exact Hv].
  apply IH, Forall_app; split; [exact Hv|].
  unfold unpack; rewrite unpack_loop_map; simpl.
  apply Forall_forall; intros r Hr; apply in_map_iff in Hr as (p & <- & _).
  now exists (pkg_Name p).
Qed.

(** C3: for a document whose advisories all carry a parsable issue date,
    Parse returns, with a nil error, the concatenation over the advisories
    of one record per affected package (so N records for N packages); each
    record of an advisory carries that advisory's identifier, description,
    issue date, severity, normalized severity, distribution and the hrefs
    joined into one links string, and its own package's name, the kind
    "binary" and the fixed-in version "version-release". *)
Theorem Parse_one_record_per_package xml_decode time_parse NS releaseToDist u contents updates :
  xml_decode contents = Ok updates ->
  (forall up, In up updates -> time_parse (upd_Issued_Date up) <> None) ->
  exists chunks,
    Parse xml_decode time_parse NS releaseToDist u contents = (concat chunks, None) /\
    Forall2 (fun up recs =>
      exists issued, time_parse (upd_Issued_Date up) = Some issued /\
      Forall2 (fun p r =>
        v_Updater r = Name u /\ v_Name r = upd_ID up /\
        v_Description r = upd_Description up /\ v_Issued r = Some issued /\
        v_Links r = refsToLinks up /\ v_Severity r = upd_Severity up /\
        v_NormalizedSeverity r = NS (upd_Severity up) /\
        v_Dist r = releaseToDist (release u) /\
        v_Package r = Some (mkCPackage (pkg_Name p) "binary") /\
        v_FixedInVersion r = (pkg_Version p ++ "-" ++ pkg_Release p)%string)
      (upd_Packages up) recs) updates chunks.
Proof.
  intros Hdec Hok.
  exists (map (advisory_records time_parse NS u (releaseToDist (release u))) updates).
  split.
  - unfold Parse; rewrite Hdec, parse_loop_all_ok by exact Hok.
    now rewrite flat_map_concat_map.
  - apply Forall2_map_r; intros up Hin.
    unfold advisory_records.
    destruct (time_parse (upd_Issued_Date up)) as [t|] eqn:Ht;
      [|exfalso; exact (Hok up Hin Ht)].
    exists t; split; [reflexivity|].
    unfold unpack; rewrite unpack_loop_map; simpl.
    apply Forall2_map_r; intros p _.
    repeat split.
Qed.

(** C4: when the advisories before [bad] all have parsable issue dates and
    [bad]'s does not match the layout, Parse stops at [bad]: it returns the
    records of the earlier advisories, nothing of [bad] or of the ones after
    it, together with a non-nil error (the time.Parse error for [bad]). *)
Theorem Parse_partial_on_bad_date xml_decode time_parse NS releaseToDist u contents pre bad post :
  xml_decode contents = Ok (pre ++ bad :: post) ->
  (forall up, In up pre -> time_parse (upd_Issued_Date up) <> None) ->
  time_parse (upd_Issued_Date bad) = None ->
  Parse xml_decode time_parse NS releaseToDist u contents
  = (flat_map (advisory_records time_parse NS u (releaseToDist (release u))) pre,
     Some (ErrTimeParse (upd_Issued_Date bad))).
Proof.
  intros Hdec Hok Hbad.
  unfold Parse; rewrite Hdec.
  now apply parse_loop_stops.
Qed.

(** C8: every record Parse returns, for any document and any outcome, has a
    package whose kind is the constant "binary". *)
Theorem Parse_kind_binary xml_decode time_parse NS releaseToDist u contents r :
  In r (fst (Parse xml_decode time_parse NS releaseToDist u contents)) ->
  exists name, v_Package r = Some (mkCPackage name "binary").
Proof.
  intros Hin.
  assert (Hall : Forall binary_record (fst (Parse xml_decode time_parse NS releaseToDist u contents))).
  { unfold Parse; destruct (xml_decode contents) as [updates|e]; simpl.
    - apply parse_loop_binary; constructor.
    - constructor. }
  exact (proj1 (Forall_forall _ _) Hall r Hin).
Qed.

(* ------------------------------------------------------------------ *)
(** ** Fetch *)

Lemma fetch_with_err RepoMD Upd u c fp rc fp' e :
  fetch_with RepoMD Upd u c fp = (rc, fp', Some e) ->
  rc = None /\ fp' = "" /\ e <> Unchanged.
Proof.
  unfold fetch_with.
  destruct (RepoMD c (Timeout u)) as [md|e1]; [|intros H; inversion H; subst; now split].
  destruct (alas_Repo md UpdateInfo "") as [repo|e2]; [|intros H; inversion H; subst; now split].
  destruct (Upd c (Timeout u)) as [s|e3]; intros H; inversion H; subst; now split.
Qed.

Lemma Fetch_err NewClient RepoMD Upd u fp rc fp' e :
  Fetch NewClient RepoMD Upd u fp = (rc, fp', Some e) ->
  rc = None /\ fp' = "" /\ e <> Unchanged.
Proof.
  unfold Fetch; destruct (client u) as [c|].
  - apply fetch_with_err.
  - destruct (NewClient (release u)) as [c|e1]; [apply fetch_with_err|].
    intros H; inversion H; subst; now split.
Qed.

Lemma Fetch_ok NewClient RepoMD Upd u fp c md repo rc fp' :
  client_used NewClient u c ->
  RepoMD c (Timeout u) = Ok md ->
  alas_Repo md UpdateInfo "" = Ok repo ->
  Fetch NewClient RepoMD Upd u fp = (rc, fp', None) ->
  fp' = repo_Checksum_Sum repo.
Proof.
  intros Hc Hmd Hrepo.
  assert (Hw : forall rc fp', fetch_with RepoMD Upd u c fp = (rc, fp', None) ->
                              fp' = repo_Checksum_Sum repo).
  { intros rc0 fp0; unfold fetch_with; rewrite Hmd, Hrepo.
    destruct (Upd c (Timeout u)); intros H; inversion H; reflexivity. }
  unfold Fetch; destruct Hc as [Hc | [Hc Hnew]]; rewrite Hc; [apply Hw|].
  rewrite Hnew; apply Hw.
Qed.

(** C1: Fetch never reads the prior Fingerprint: its result is the same for
    every prior Fingerprint and never the Unchanged condition.  With prior
    Fingerprint "abc" and upstream updateinfo checksum "abc", Fetch on a
    fresh updater returns the content and "abc" with a nil error. *)
Theorem Fetch_never_unchanged NewClient RepoMD Upd u fp fp' :
  (Fetch NewClient RepoMD Upd u fp = Fetch NewClient RepoMD Upd u fp'
   /\ snd (Fetch NewClient RepoMD Upd u fp) <> Some Unchanged)
  /\ Fetch ex_NewClient (ex_RepoMD "abc") ex_Updates ex_updater "abc"
     = (Some "doc1", "abc", None).
Proof.
  split; [split|reflexivity].
  - reflexivity.
  - destruct (Fetch NewClient RepoMD Upd u fp) as [[rc fp0] [e|]] eqn:H; simpl; [|discriminate].
    destruct (Fetch_err _ _ _ _ _ _ _ _ H) as (_ & _ & Hne).
    congruence.
Qed.

(** C2: when the upstream updateinfo checksum seen through the client Fetch
    uses differs from the prior Fingerprint, Fetch does not return
    Unchanged, and when it succeeds the Fingerprint it returns is exactly
    that checksum, hence differs from the prior one. *)
Theorem Fetch_changed_returns_checksum NewClient RepoMD Upd u fp c md repo rc fp' err :
  client_used NewClient u c ->
  RepoMD c (Timeout u) = Ok md ->
  alas_Repo md UpdateInfo "" = Ok repo ->
  repo_Checksum_Sum repo <> fp ->
  Fetch NewClient RepoMD Upd u fp = (rc, fp', err) ->
  err <> Some Unchanged /\
  (err = None -> fp' = repo_Checksum_Sum repo /\ fp' <> fp).
Proof.
  intros Hc Hmd Hrepo Hne Hf; split.
  - destruct err as [e|]; [|discriminate].
    destruct (Fetch_err _ _ _ _ _ _ _ _ Hf) as (_ & _ & He); congruence.
  - intros ->.
    assert (Heq : fp' = repo_Checksum_Sum repo) by (eapply Fetch_ok; eauto).
    split; [exact Heq | congruence].
Qed.

(** C9: whenever Fetch returns a non-nil error, the stream is nil and the
    Fingerprint is empty. *)
Theorem Fetch_error_empty NewClient RepoMD Upd u fp rc fp' e :
  Fetch NewClient RepoMD Upd u fp = (rc, fp', Some e) ->
  rc = None /\ fp' = "".
Proof.
  intros H; destruct (Fetch_err _ _ _ _ _ _ _ _ H) as (? & ? & _); now split.
Qed.

(** C10: NewUpdater returns a non-nil updater and a nil error for every
    release, with Timeout 15 seconds, no mirrors and no client; a Fetch on it
    creates a client with NewClient for that call. *)
Theorem NewUpdater_defaults r :
  exists u, NewUpdater r = (Some u, None) /\
    release u = r /\ Timeout u = (15 * Second)%N /\ Mirrors u = [] /\ client u = None /\
    (forall NewClient RepoMD Upd fp,
       Fetch NewClient RepoMD Upd u fp =
       match NewClient r with
       | Err e => (None, "", Some (Errorf "failed to create client" e))
       | Ok c => fetch_with RepoMD Upd u c fp
       end).
Proof.
  eexists; split; [reflexivity|].
  repeat split.
Qed.

(* ------------------------------------------------------------------ *)
(** ** Configure and Name *)

Lemma set_mirrors_twice c a b : set_mirrors (set_mirrors c a) b = set_mirrors c b.
Proof. now destruct c. Qed.

Lemma mirrors_loop_ok url_parse cl ms mus :
  Forall2 (fun m mu => url_parse m = Ok mu) ms mus ->
  mirrors_loop url_parse cl ms = (set_mirrors cl (cl_mirrors cl ++ mus), None).
Proof.
  intros H; revert cl; induction H as [|m mu ms mus Hm _ IH]; intros cl; simpl.
  - rewrite app_nil_r; now destruct cl.
  - rewrite Hm, IH; simpl. rewrite set_mirrors_twice, <- app_assoc. reflexivity.
Qed.

Lemma mirrors_loop_bad url_parse cl ms m e :
  In m ms -> url_parse m = Err e ->
  exists e', snd (mirrors_loop url_parse cl ms) = Some e'.
Proof.
  revert cl; induction ms as [|m0 ms IH]; intros cl Hin He; [destruct Hin|]; simpl.
  destruct (url_parse m0) as [mu|e0] eqn:H0; [|eexists; reflexivity].
  destruct Hin as [<- | Hin]; [congruence|].
  now apply IH.
Qed.

Lemma mirrors_loop_length url_parse cl ms cl' :
  mirrors_loop url_parse cl ms = (cl', None) ->
  length (cl_mirrors cl') = length (cl_mirrors cl) + length ms.
Proof.
  revert cl; induction ms as [|m ms IH]; intros cl; simpl.
  - intros H; inversion H; subst; lia.
  - destruct (url_parse m) as [mu|e]; [|discriminate].
    intros H; rewrite (IH _ H); simpl; rewrite length_app; simpl; lia.
Qed.

(** C6: Configure first runs the ConfigUnmarshaler; if it fails, Configure
    returns its error.  Otherwise the supplied http client is bound and:
    (b) with a non-empty mirror list whose entries all parse, exactly those
    mirrors are used; (c) with no mirrors, getMirrors is called on the new
    client and the client it leaves is bound, its error wrapped; (d) a
    mirror entry url.Parse refuses makes Configure return a non-nil error;
    (e) with any non-empty mirror list Configure never consults getMirrors:
    its result is the same whatever getMirrors does (as in (b) and (d)). *)
Theorem Configure_mirrors url_parse getMirrors u f hc t ms :
  (forall e, f (Timeout u, Mirrors u) = ((t, ms), Some e) ->
     Configure url_parse getMirrors u f hc = (set_config u t ms, Some e))
  /\ (f (Timeout u, Mirrors u) = ((t, ms), None) -> ms <> [] ->
      forall mus, Forall2 (fun m mu => url_parse m = Ok mu) ms mus ->
      forall getMirrors',
        Configure url_parse getMirrors' u f hc
        = (set_client (set_config u t ms) (mkClient hc mus), None))
  /\ (f (Timeout u, Mirrors u) = ((t, ms), None) -> ms = [] ->
      Configure url_parse getMirrors u f hc
      = let '(cl', gerr) := getMirrors (mkClient hc []) t (release u) in
        match gerr with
        | Some e => (set_client (set_config u t []) cl', Some (Errorf "failed to create client" e))
        | None => (set_client (set_config u t []) cl', None)
        end)
  /\ (f (Timeout u, Mirrors u) = ((t, ms), None) ->
      forall m e, In m ms -> url_parse m = Err e ->
      exists cl e', forall getMirrors',
        Configure url_parse getMirrors' u f hc = (set_client (set_config u t ms) cl, Some e'))
  /\ (f (Timeout u, Mirrors u) = ((t, ms), None) -> ms <> [] ->
      forall getMirrors',
        Configure url_parse getMirrors' u f hc = Configure url_parse getMirrors u f hc).
Proof.
  split; [|split; [|split; [|split]]].
  - intros e Hf; unfold Configure; now rewrite Hf.
  - intros Hf Hne mus Hmus g; unfold Configure; rewrite Hf; simpl.
    rewrite (mirrors_loop_ok _ _ _ _ Hmus); simpl.
    destruct Hmus as [|m mu ms' mus' _ _]; [congruence|reflexivity].
  - intros Hf ->; unfold Configure; rewrite Hf; simpl.
    destruct (getMirrors (mkClient hc []) t (release u)) as [cl' [e|]]; reflexivity.
  - intros Hf m e Hin He.
    destruct (mirrors_loop_bad url_parse (mkClient hc []) ms m e Hin He) as [e' He'].
    destruct (mirrors_loop url_parse (mkClient hc []) ms) as [cl merr] eqn:Hl; simpl in He'; subst.
    exists cl, e'; intros g; unfold Configure; rewrite Hf; simpl; now rewrite Hl.
  - intros Hf Hne g; unfold Configure; rewrite Hf; simpl.
    destruct (mirrors_loop url_parse (mkClient hc []) ms) as [cl [e|]] eqn:Hl; [reflexivity|].
    assert (Hz : Nat.eqb (length (cl_mirrors cl)) 0 = false).
    { apply Nat.eqb_neq; rewrite (mirrors_loop_length _ _ _ _ Hl); simpl.
      destruct ms; [congruence|simpl; lia]. }
    now rewrite Hz.
Qed.

(** C7: Name is "aws-<release>-updater", a function of the release alone;
    Configure leaves the release, hence Name, unchanged, and Fetch and Parse
    return no new updater (the embedding has them read [u] only). *)
Theorem Name_stable u :
  Name u = ("aws-" ++ release u ++ "-updater")%string /\
  (forall url_parse getMirrors f hc,
     Name (fst (Configure url_parse getMirrors u f hc)) = Name u).
Proof.
  split; [reflexivity|].
  intros url_parse getMirrors f hc; unfold Configure.
  destruct (f (Timeout u, Mirrors u)) as [[t ms] [e|]]; [reflexivity|].
  destruct (mirrors_loop url_parse (mkClient hc []) (Mirrors (set_config u t ms))) as [cl [e|]];
    [reflexivity|].
  destruct (Nat.eqb _ 0); [destruct (getMirrors _ _ _) as [cl' [e|]]|]; reflexivity.
Qed.

(* ------------------------------------------------------------------ *)
(** ** Mutual exclusion of the lock *)

Module DistlockFacts.
Import Distlock.

Lemma key_taken_false s k : key_taken s k = false -> ~ In k (map fst s).
Proof.
  unfold key_taken; intros H Hin.
  apply in_map_iff in Hin as ([k' h] & <- & Hin).
  assert (existsb (fun g => String.eqb (fst g) k') s = true)
    by (apply existsb_exists; exists (k', h); split; [exact Hin | apply String.eqb_refl]).
  simpl in *; congruence.
Qed.

Lemma holds_any_false s h : holds_any s h = false -> ~ In h (map snd s).
Proof.
  unfold holds_any; intros H Hin.
  apply in_map_iff in Hin as ([k h'] & <- & Hin).
  assert (existsb (fun g => Nat.eqb (snd g) h') s = true)
    by (apply existsb_exists; exists (k, h'); split; [exact Hin | apply Nat.eqb_refl]).
  simpl in *; congruence.
Qed.

Lemma key_taken_true s k : key_taken s k = true -> exists h, In (k, h) s.
Proof.
  unfold key_taken; intros H; apply existsb_exists in H as ([k' h] & Hin & Heq).
  apply String.eqb_eq in Heq; simpl in Heq; subst; now exists h.
Qed.

Lemma acquirable_inv s h k :
  acquirable s h k = true -> ~ In k (map fst s) /\ ~ In h (map snd s).
Proof.
  unfold acquirable; intros H; apply negb_true_iff, orb_false_iff in H as [H1 H2].
  split; [now apply key_taken_false | now apply holds_any_false].
Qed.

Lemma NoDup_map_filter {A B} (f : A -> B) (p : A -> bool) l :
  NoDup (map f l) -> NoDup (map f (filter p l)).
Proof.
  induction l as [|x l IH]; simpl; intros H; [constructor|].
  inversion H as [|? ? Hx Hl]; subst.
  destruct (p x); simpl; [|now apply IH].
  constructor; [|now apply IH].
  intros Hin; apply Hx; apply in_map_iff in Hin as (y & Hy & Hin).
  apply filter_In in Hin as [Hin _]; rewrite <- Hy; now apply in_map.
Qed.

Lemma step_well_formed s e s' b :
  well_formed s -> step s e = Some (s', b) -> well_formed s'.
Proof.
  intros [Hk Hh]; destruct e as [h k|h k|h k|h]; simpl.
  - destruct (acquirable s h k) eqn:Ha; intros Hs; inversion Hs; subst.
    apply acquirable_inv in Ha as [Hk' Hh']; split; simpl; now constructor.
  - destruct (acquirable s h k); intros Hs; inversion Hs; subst; now split.
  - unfold TryLock; destruct (acquirable s h k) eqn:Ha; intros Hs; inversion Hs; subst.
    + apply acquirable_inv in Ha as [Hk' Hh']; split; simpl; now constructor.
    + now split.
  - intros Hs; inversion Hs; subst; split; now apply NoDup_map_filter.
Qed.

Lemma reachable_well_formed s : reachable s -> well_formed s.
Proof.
  induction 1 as [|s e s' b _ IH Hstep].
  - split; constructor.
  - eapply step_well_formed; eauto.
Qed.

Lemma NoDup_fst_unique (s : State) k h1 h2 :
  NoDup (map fst s) -> In (k, h1) s -> In (k, h2) s -> h1 = h2.
Proof.
  induction s as [|[k0 h0] s IH]; simpl; intros Hnd H1 H2; [destruct H1|].
  inversion Hnd as [|? ? Hx Hs]; subst.
  destruct H1 as [E1 | H1], H2 as [E2 | H2].
  - congruence.
  - inversion E1; subst. exfalso; apply Hx. change k with (fst (k, h2)). now apply in_map.
  - inversion E2; subst. exfalso; apply Hx. change k with (fst (k, h1)). now apply in_map.
  - now apply IH.
Qed.

Lemma NoDup_snd_unique (s : State) k1 k2 h :
  NoDup (map snd s) -> In (k1, h) s -> In (k2, h) s -> k1 = k2.
Proof.
  induction s as [|[k0 h0] s IH]; simpl; intros Hnd H1 H2; [destruct H1|].
  inversion Hnd as [|? ? Hx Hs]; subst.
  destruct H1 as [E1 | H1], H2 as [E2 | H2].
  - congruence.
  - inversion E1; subst. exfalso; apply Hx. change h with (snd (k2, h)). now apply in_map.
  - inversion E2; subst. exfalso; apply Hx. change h with (snd (k1, h)). now apply in_map.
  - now apply IH.
Qed.
End DistlockFacts.

Module DistlockMutex.
Import Distlock DistlockFacts.

Lemma step_success_acquirable s e h k s' :
  acquires e h k -> step s e = Some (s', true) ->
  acquirable s h k = true /\ s' = (k, h) :: s.
Proof.
  intros [-> | ->]; simpl; [|unfold TryLock];
    destruct (acquirable s h k); intros H; inversion H; subst; now split.
Qed.

Lemma Unlock_frees s h k :
  NoDup (map fst s) -> In (k, h) s -> key_taken (Unlock s h) k = false.
Proof.
  intros Hnd Hin.
  destruct (key_taken (Unlock s h) k) eqn:Ht; [|reflexivity].
  apply key_taken_true in Ht as (h' & Hin').
  unfold Unlock in Hin'; apply filter_In in Hin' as [Hin' Hneq]; simpl in Hneq.
  rewrite (NoDup_fst_unique s k h' h Hnd Hin' Hin), Nat.eqb_refl in Hneq.
  discriminate.
Qed.

Lemma Unlock_releases s h : holds_any (Unlock s h) h = false.
Proof.
  unfold holds_any, Unlock; induction s as [|[k0 h0] s IH]; simpl; [reflexivity|].
  destruct (Nat.eqb h0 h) eqn:E; simpl; [exact IH|].
  now rewrite E, IH.
Qed.

(** C5 (lock model): in every state reached by any interleaving of Lock,
    TryLock and Unlock calls of any handles, each key has at most one
    holder; a Lock or TryLock reports success only when no handle holds the
    key, and afterwards its caller is the only holder; and once the holder
    of a key calls Unlock, a Lock or TryLock on that key by it, or by any
    handle holding no grant, succeeds. *)
Theorem Lock_mutual_exclusion s :
  reachable s ->
  (forall k h1 h2, In (k, h1) s -> In (k, h2) s -> h1 = h2) /\
  (forall e h k s', acquires e h k -> step s e = Some (s', true) ->
     (forall h', ~ In (k, h') s) /\ In (k, h) s' /\
     (forall h', In (k, h') s' -> h' = h)) /\
  (forall k h, In (k, h) s ->
     holds_any (Unlock s h) h = false /\
     (forall h', holds_any (Unlock s h) h' = false ->
        step (Unlock s h) (EvTryLock h' k) = Some ((k, h') :: Unlock s h, true) /\
        step (Unlock s h) (EvLock h' k) = Some ((k, h') :: Unlock s h, true))).
Proof.
  intros Hr; pose proof (reachable_well_formed s Hr) as [Hk Hh].
  split; [|split].
  - intros k h1 h2; now apply NoDup_fst_unique.
  - intros e h k s' Hacq Hstep.
    destruct (step_success_acquirable s e h k s' Hacq Hstep) as [Ha ->].
    assert (Hwf : well_formed ((k, h) :: s))
      by (apply (step_well_formed s e _ true); [split; assumption | now rewrite <- Hstep]).
    apply acquirable_inv in Ha as [Hnk _].
    split; [|split].
    + intros h' Hin; apply Hnk; change k with (fst (k, h')); now apply in_map.
    + now left.
    + intros h' Hin; apply (NoDup_fst_unique _ k h' h (proj1 Hwf) Hin); now left.
  - intros k h Hin; split; [apply Unlock_releases|].
    intros h' Hh'.
    assert (Ha : acquirable (Unlock s h) h' k = true)
      by (unfold acquirable; now rewrite (Unlock_frees s h k Hk Hin), Hh').
    simpl; unfold TryLock; rewrite Ha; now split.
Qed.
End DistlockMutex.

(* ------------------------------------------------------------------ *)
(** ** Witnesses: the theorems at concrete inputs *)

Lemma Fetch_changed_returns_checksum_witness :
  @None error <> Some Unchanged /\
  (@None error = None -> "def" = "def" /\ "def" <> "abc").
Proof.
  apply (Fetch_changed_returns_checksum ex_NewClient (ex_RepoMD "def") ex_Updates ex_updater "abc"
           (mkClient None []) (mkRepoMD [mkRepo "primary" "p0"; mkRepo UpdateInfo "def"])
           (mkRepo UpdateInfo "def") (Some "doc1") "def" None).
  - right; split; reflexivity.
  - reflexivity.
  - reflexivity.
  - discriminate.
  - reflexivity.
Defined.

Lemma Parse_one_record_per_package_witness :
  exists chunks,
    ex_Parse ex_updater "doc1" = (concat chunks, None) /\
    Forall2 (fun up recs =>
      exists issued, go_time_parse (upd_Issued_Date up) = Some issued /\
      Forall2 (fun p r =>
        v_Updater r = Name ex_updater /\ v_Name r = upd_ID up /\
        v_Description r = upd_Description up /\ v_Issued r = Some issued /\
        v_Links r = refsToLinks up /\ v_Severity r = upd_Severity up /\
        v_NormalizedSeverity r = ex_NormalizeSeverity (upd_Severity up) /\
        v_Dist r = ex_releaseToDist (release ex_updater) /\
        v_Package r = Some (mkCPackage (pkg_Name p) "binary") /\
        v_FixedInVersion r = (pkg_Version p ++ "-" ++ pkg_Release p)%string)
      (upd_Packages up) recs) [ex_upd1] chunks.
Proof.
  apply (Parse_one_record_per_package ex_xml_decode go_time_parse ex_NormalizeSeverity
           ex_releaseToDist ex_updater "doc1" [ex_upd1]).
  - reflexivity.
  - intros up [<- | []]; vm_compute; discriminate.
Defined.

Lemma Parse_partial_on_bad_date_witness :
  ex_Parse ex_updater "doc3"
  = (flat_map (advisory_records go_time_parse ex_NormalizeSeverity ex_updater
                 (ex_releaseToDist (release ex_updater))) [ex_upd1],
     Some (ErrTimeParse "13/11/2018")).
Proof.
  apply (Parse_partial_on_bad_date ex_xml_decode go_time_parse ex_NormalizeSeverity
           ex_releaseToDist ex_updater "doc3" [ex_upd1] ex_upd2 [ex_upd3]).
  - reflexivity.
  - intros up [<- | []]; vm_compute; discriminate.
  - reflexivity.
Defined.

Lemma Parse_kind_binary_witness :
  exists name, v_Package (with_package (partial_of ex_NormalizeSeverity ex_updater
                   (ex_releaseToDist "2") ex_upd1 (mkTime 2018 11 13 21 38)) ex_pkg1)
               = Some (mkCPackage name "binary").
Proof.
  apply (Parse_kind_binary ex_xml_decode go_time_parse ex_NormalizeSeverity ex_releaseToDist
           ex_updater "doc1").
  vm_compute. left. reflexivity.
Defined.

Lemma Fetch_error_empty_witness : @None Stream = None /\ "" = "".
Proof.
  apply (Fetch_error_empty (fun _ => Err (ErrText "dial tcp: i/o timeout")) (ex_RepoMD "abc")
           ex_Updates ex_updater "abc" None ""
           (Errorf "failed to create client" (ErrText "dial tcp: i/o timeout"))).
  reflexivity.
Defined.

Lemma Configure_mirrors_witness :
  Configure ex_url_parse (fun c _ _ => (c, Some (ErrText "unreachable"))) ex_updater ex_unmarshal (Some 7)
  = (set_client (set_config ex_updater (15 * Second)%N ex_mirrors) (mkClient (Some 7) ex_mirrors),
     None).
Proof.
  apply (proj1 (proj2 (Configure_mirrors ex_url_parse (fun c _ _ => (c, Some (ErrText "unreachable")))
                         ex_updater ex_unmarshal (Some 7) (15 * Second)%N ex_mirrors))).
  - reflexivity.
  - discriminate.
  - constructor; [reflexivity | constructor].
Defined.

Lemma Lock_mutual_exclusion_witness :
  (forall k h1 h2, In (k, h1) ex_lock_state -> In (k, h2) ex_lock_state -> h1 = h2) /\
  (forall e h k s', Distlock.acquires e h k -> Distlock.step ex_lock_state e = Some (s', true) ->
     (forall h', ~ In (k, h') ex_lock_state) /\ In (k, h) s' /\
     (forall h', In (k, h') s' -> h' = h)) /\
  (forall k h, In (k, h) ex_lock_state ->
     Distlock.holds_any (Distlock.Unlock ex_lock_state h) h = false /\
     (forall h', Distlock.holds_any (Distlock.Unlock ex_lock_state h) h' = false ->
        Distlock.step (Distlock.Unlock ex_lock_state h) (Distlock.EvTryLock h' k)
          = Some ((k, h') :: Distlock.Unlock ex_lock_state h, true) /\
        Distlock.step (Distlock.Unlock ex_lock_state h) (Distlock.EvLock h' k)
          = Some ((k, h') :: Distlock.Unlock ex_lock_state h, true))).
Proof.
  apply (DistlockMutex.Lock_mutual_exclusion ex_lock_state).
  apply (Distlock.reach_step [] (Distlock.EvTryLock 1 "aws-2-updater") ex_lock_state true).
  - constructor.
  - reflexivity.
Defined.

(* ------------------------------------------------------------------ *)
(** ** Further properties: InsertScannerList *)

Lemma insert_loop_ok Exec hash k : forall db i,
  (forall j, i <= j < i + k -> exec_appends Exec hash j) ->
  insert_loop Exec db hash i k = (db ++ map (fun j => (hash, j)) (seq i k), None).
Proof.
  induction k as [|k IH]; intros db i Hap; simpl.
  - now rewrite app_nil_r.
  - rewrite (Hap i) by lia.
    rewrite IH by (intros j Hj; apply Hap; lia).
    now rewrite <- app_assoc.
Qed.

Lemma insert_loop_err Exec hash e m : forall db i k,
  m < k ->
  (forall j, i <= j < i + m -> exec_appends Exec hash j) ->
  (forall db', Exec db' hash (i + m) = Err e) ->
  insert_loop Exec db hash i k = (db ++ map (fun j => (hash, j)) (seq i m), Some e).
Proof.
  induction m as [|m IH]; intros db i k Hlt Hap Herr; destruct k as [|k]; try lia; simpl.
  - rewrite Nat.add_0_r in Herr; rewrite Herr, app_nil_r; reflexivity.
  - rewrite (Hap i) by lia.
    rewrite (IH _ (S i) k).
    + now rewrite <- app_assoc.
    + lia.
    + intros j Hj; apply Hap; lia.
    + intros db'; rewrite <- (Herr db'); f_equal; lia.
Qed.

(** X1: when every INSERT succeeds, InsertScannerList appends exactly the
    rows (hash, 0), ..., (hash, n-1), in that order, and returns nil; for
    n <= 0 it runs no statement and leaves the table as it was. *)
Theorem InsertScannerList_inserts_ids Exec db hash n :
  (forall i, i < Z.to_nat n -> exec_appends Exec hash i) ->
  InsertScannerList Exec db hash n
  = (db ++ map (fun i => (hash, i)) (seq 0 (Z.to_nat n)), None).
Proof.
  intros Hap; unfold InsertScannerList.
  apply insert_loop_ok; intros j Hj; apply Hap; lia.
Qed.

(** X2: when the INSERT of scanner id k (k < n) fails with [e] after the
    ones before it succeeded, InsertScannerList returns [e] at once: the
    rows (hash, 0) .. (hash, k-1) stay inserted and no id after k is
    tried. *)
Theorem InsertScannerList_stops_at_error Exec db hash n k e :
  k < Z.to_nat n ->
  (forall i, i < k -> exec_appends Exec hash i) ->
  (forall db', Exec db' hash k = Err e) ->
  InsertScannerList Exec db hash n = (db ++ map (fun i => (hash, i)) (seq 0 k), Some e).
Proof.
  intros Hlt Hap Herr; unfold InsertScannerList.
  apply insert_loop_err; [exact Hlt | intros j Hj; apply Hap; lia | exact Herr].
Qed.

(* ------------------------------------------------------------------ *)
(** ** Further properties: Name and refsToLinks *)

Lemma string_length_app (a b : string) : String.length (a ++ b) = String.length a + String.length b.
Proof. induction a as [|c a IH]; simpl; congruence. Qed.

Lemma string_app_cancel_r (a b s : string) : (a ++ s = b ++ s)%string -> a = b.
Proof.
  revert b; induction a as [|c a IH]; intros [|c' b] H; simpl in H; try reflexivity.
  - exfalso; apply (f_equal String.length) in H; simpl in H; rewrite string_length_app in H; lia.
  - exfalso; apply (f_equal String.length) in H; simpl in H; rewrite string_length_app in H; lia.
  - inversion H; subst; f_equal; now apply IH.
Qed.

(** X3: Name determines the release: two updaters with the same Name have
    the same release (so the Name used as lock key and record origin tells
    releases apart). *)
Theorem Name_injective u1 u2 : Name u1 = Name u2 -> release u1 = release u2.
Proof.
  unfold Name; simpl; intros H.
  injection H as H.
  exact (string_app_cancel_r _ _ _ H).
Qed.

Lemma string_app_empty_r (a : string) : (a ++ "")%string = a.
Proof. induction a as [|c a IH]; simpl; congruence. Qed.

Lemma split_sp_cons (s : string) : exists w ws, split_sp s = w :: ws.
Proof.
  induction s as [|c s IH]; simpl; [eauto|].
  destruct (Ascii.eqb c " "); [eauto|].
  destruct IH as (w & ws & ->); eauto.
Qed.

Lemma split_sp_prefix (a s : string) w ws :
  no_space a -> split_sp s = w :: ws -> split_sp (a ++ s) = (a ++ w)%string :: ws.
Proof.
  unfold no_space; induction a as [|c a IH]; simpl; intros Hns Hs; [exact Hs|].
  apply andb_true_iff in Hns as [Hc Ha].
  destruct (Ascii.eqb c " "); [discriminate|].
  now rewrite (IH Ha Hs).
Qed.

(** X4: the links string of an advisory with at least one reference splits
    at single spaces back into its hrefs, in order, when no href contains a
    space. *)
Theorem refsToLinks_split up :
  upd_References up <> [] ->
  Forall (fun r => no_space (ref_Href r)) (upd_References up) ->
  split_sp (refsToLinks up) = map ref_Href (upd_References up).
Proof.
  unfold refsToLinks; intros Hne Hns.
  induction (upd_References up) as [|r rs IH]; [congruence|].
  inversion Hns as [|? ? Hr Hrs]; subst.
  destruct rs as [|r2 rs].
  - simpl. pose proof (split_sp_prefix (ref_Href r) "" "" [] Hr eq_refl) as Hs.
    now rewrite !string_app_empty_r in Hs.
  - change (split_sp (ref_Href r ++ " " ++ String.concat " " (map ref_Href (r2 :: rs)))
            = ref_Href r :: map ref_Href (r2 :: rs)).
    rewrite (split_sp_prefix (ref_Href r) _ "" (map ref_Href (r2 :: rs)) Hr).
    + now rewrite string_app_empty_r.
    + change (split_sp (" " ++ String.concat " " (map ref_Href (r2 :: rs))))
        with ("" :: split_sp (String.concat " " (map ref_Href (r2 :: rs)))).
      rewrite IH; [reflexivity | discriminate | exact Hrs].
Qed.

(* ------------------------------------------------------------------ *)
(** ** Further properties: Parse *)

Lemma parse_loop_nil_error tp NS u dist ups vulns :
  snd (parse_loop tp NS u dist ups vulns) = None ->
  forall up, In up ups -> tp (upd_Issued_Date up) <> None.
Proof.
  revert vulns; induction ups as [|up0 ups IH]; intros vulns H up Hin; [destruct Hin|].
  simpl in H; destruct (tp (upd_Issued_Date up0)) as [t|] eqn:Ht; [|discriminate].
  destruct Hin as [<- | Hin]; [congruence|].
  exact (IH _ H up Hin).
Qed.

(** X5: Parse returns a nil error exactly when the stream decodes and every
    advisory of the document has an issue date matching the layout; a
    stream that does not decode gives no records at all. *)
Theorem Parse_nil_error_iff xml_decode tp NS releaseToDist u contents :
  (snd (Parse xml_decode tp NS releaseToDist u contents) = None <->
   exists ups, xml_decode contents = Ok ups /\
               forall up, In up ups -> tp (upd_Issued_Date up) <> None)
  /\ (forall e, xml_decode contents = Err e ->
        fst (Parse xml_decode tp NS releaseToDist u contents) = []).
Proof.
  unfold Parse; split.
  - destruct (xml_decode contents) as [ups|e]; split.
    + intros H; exists ups; split; [reflexivity|]; exact (parse_loop_nil_error _ _ _ _ _ _ H).
    + intros (ups' & Hu & Hok); inversion Hu; subst.
      now rewrite parse_loop_all_ok.
    + discriminate.
    + intros (ups' & Hu & _); discriminate.
  - intros e ->; reflexivity.
Qed.

Lemma parse_loop_prefix tp NS u dist A B : forall vulns,
  exists rest, fst (parse_loop tp NS u dist (A ++ B) vulns)
               = fst (parse_loop tp NS u dist A vulns) ++ rest.
Proof.
  induction A as [|up A IH]; intros vulns; simpl.
  - rewrite parse_loop_acc; simpl; eauto.
  - destruct (tp (upd_Issued_Date up)); [apply IH|].
    exists []; simpl; now rewrite app_nil_r.
Qed.

(** X6: adding advisories after the end of a document never changes the
    records Parse returns for the original ones: the records of the shorter
    document are a prefix of those of the longer one, whatever the dates. *)
Theorem Parse_append_prefix xml_decode tp NS releaseToDist u c1 c2 A B :
  xml_decode c1 = Ok A -> xml_decode c2 = Ok (A ++ B) ->
  exists rest, fst (Parse xml_decode tp NS releaseToDist u c2)
               = fst (Parse xml_decode tp NS releaseToDist u c1) ++ rest.
Proof.
  intros H1 H2; unfold Parse; rewrite H1, H2; apply parse_loop_prefix.
Qed.

Lemma parse_loop_origin tp NS u dist ups : forall vulns r,
  In r (fst (parse_loop tp NS u dist ups vulns)) ->
  In r vulns \/
  exists up t p, In up ups /\ tp (upd_Issued_Date up) = Some t /\
                 In p (upd_Packages up) /\ r = with_package (partial_of NS u dist up t) p.
Proof.
  induction ups as [|up ups IH]; intros vulns r Hin; simpl in Hin; [now left|].
  destruct (tp (upd_Issued_Date up)) as [t|] eqn:Ht; [|now left].
  destruct (IH _ _ Hin) as [Hv | (up' & t' & p & Hup & Ht' & Hp & ->)].
  - apply in_app_or in Hv as [Hv | Hv]; [now left|].
    unfold unpack in Hv; rewrite unpack_loop_map in Hv; simpl in Hv.
    apply in_map_iff in Hv as (p & <- & Hp).
    right; exists up, t, p; repeat split; auto. now left.
  - right; exists up', t', p; repeat split; auto. now right.
Qed.

(** X7: every record Parse returns comes from the decoded document: it
    carries the updater's Name and the release's distribution, and the
    identifier, parsed issue date and links of one advisory of the document
    whose date parses, with one of that advisory's packages. *)
Theorem Parse_records_origin xml_decode tp NS releaseToDist u contents r :
  In r (fst (Parse xml_decode tp NS releaseToDist u contents)) ->
  v_Updater r = Name u /\ v_Dist r = releaseToDist (release u) /\
  exists ups up t p,
    xml_decode contents = Ok ups /\ In up ups /\ tp (upd_Issued_Date up) = Some t /\
    In p (upd_Packages up) /\
    v_Name r = upd_ID up /\ v_Issued r = Some t /\ v_Links r = refsToLinks up /\
    v_FixedInVersion r = (pkg_Version p ++ "-" ++ pkg_Release p)%string.
Proof.
  unfold Parse; destruct (xml_decode contents) as [ups|e]; simpl; [|intros []].
  intros Hin.
  destruct (parse_loop_origin _ _ _ _ _ _ _ Hin) as [[] | (up & t & p & Hup & Ht & Hp & ->)].
  repeat split.
  exists ups, up, t, p; repeat split; assumption.
Qed.

(* ------------------------------------------------------------------ *)
(** ** Further properties: Fetch *)

(** X8: once Configure has bound a client, Fetch never creates one: its
    result does not depend on NewClient at all. *)
Theorem Fetch_bound_client_no_NewClient NewClient NewClient' RepoMD Upd u fp c :
  client u = Some c ->
  Fetch NewClient RepoMD Upd u fp = Fetch NewClient' RepoMD Upd u fp.
Proof. intros Hc; unfold Fetch; now rewrite Hc. Qed.

(** X9: when the repository metadata has no updateinfo entry, Fetch fails
    with the "updates repo metadata could not be retrieved" error, a nil
    stream and an empty Fingerprint, without downloading the updates (the
    result does not depend on client.Updates). *)
Theorem Fetch_no_updateinfo NewClient RepoMD Upd u fp c md e :
  client_used NewClient u c ->
  RepoMD c (Timeout u) = Ok md ->
  alas_Repo md UpdateInfo "" = Err e ->
  Fetch NewClient RepoMD Upd u fp
  = (None, "", Some (Errorf "updates repo metadata could not be retrieved" e)).
Proof.
  intros Hc Hmd Hr.
  assert (Hw : fetch_with RepoMD Upd u c fp
               = (None, "", Some (Errorf "updates repo metadata could not be retrieved" e)))
    by (unfold fetch_with; now rewrite Hmd, Hr).
  unfold Fetch; destruct Hc as [Hc | [Hc Hn]]; rewrite Hc; [exact Hw|].
  now rewrite Hn.
Qed.

(** X10: Fetch succeeds with stream [s] and Fingerprint [sum] exactly when
    the client it uses (bound, or created for the call) obtains the
    repository metadata within u.Timeout, the metadata lists an updateinfo
    entry whose checksum is [sum], and the updates download within
    u.Timeout returns [s]. *)
Theorem Fetch_success_iff NewClient RepoMD Upd u fp s sum :
  Fetch NewClient RepoMD Upd u fp = (Some s, sum, None) <->
  exists c md repo,
    client_used NewClient u c /\ RepoMD c (Timeout u) = Ok md /\
    alas_Repo md UpdateInfo "" = Ok repo /\ Upd c (Timeout u) = Ok s /\
    sum = repo_Checksum_Sum repo.
Proof.
  assert (Hw : forall c, fetch_with RepoMD Upd u c fp = (Some s, sum, None) <->
            exists md repo, RepoMD c (Timeout u) = Ok md /\
              alas_Repo md UpdateInfo "" = Ok repo /\ Upd c (Timeout u) = Ok s /\
              sum = repo_Checksum_Sum repo).
  { intros c; unfold fetch_with; split.
    - destruct (RepoMD c (Timeout u)) as [md|] eqn:E1; [|discriminate].
      destruct (alas_Repo md UpdateInfo "") as [repo|] eqn:E2; [|discriminate].
      destruct (Upd c (Timeout u)) as [s'|] eqn:E3; [|discriminate].
      intros H; inversion H; subst; exists md, repo; repeat split; assumption.
    - intros (md & repo & -> & -> & -> & ->); reflexivity. }
  unfold Fetch, client_used; split.
  - destruct (client u) as [c|] eqn:Hc.
    + intros H; apply Hw in H as (md & repo & H); exists c, md, repo; auto.
    + destruct (NewClient (release u)) as [c|] eqn:Hn; [|discriminate].
      intros H; apply Hw in H as (md & repo & H); exists c, md, repo; auto.
  - intros (c & md & repo & [Hc | [Hc Hn]] & H); rewrite Hc; [|rewrite Hn];
      apply Hw; exists md, repo; exact H.
Qed.

(* ------------------------------------------------------------------ *)
(** ** Further properties: Configure *)

Lemma mirrors_loop_first_bad url_parse cl pre m post mus e :
  Forall2 (fun m mu => url_parse m = Ok mu) pre mus ->
  url_parse m = Err e ->
  mirrors_loop url_parse cl (pre ++ m :: post)
  = (set_mirrors cl (cl_mirrors cl ++ mus), Some (Errorf "failed to create client" e)).
Proof.
  intros H; revert cl; induction H as [|m0 mu pre mus Hm _ IH]; intros cl He; simpl.
  - rewrite He, app_nil_r; now destruct cl.
  - rewrite Hm, IH by exact He; simpl.
    rewrite set_mirrors_twice, <- app_assoc; reflexivity.
Qed.

(** X11: when url.Parse refuses a mirror entry, Configure returns that
    entry's error wrapped as "failed to create client", leaves the new client
    bound with the mirrors parsed before it, and does not resolve mirrors
    from upstream. *)
Theorem Configure_bad_mirror url_parse getMirrors u f hc t pre m post mus e :
  f (Timeout u, Mirrors u) = ((t, pre ++ m :: post), None) ->
  Forall2 (fun m mu => url_parse m = Ok mu) pre mus ->
  url_parse m = Err e ->
  Configure url_parse getMirrors u f hc
  = (set_client (set_config u t (pre ++ m :: post)) (mkClient hc mus),
     Some (Errorf "failed to create client" e)).
Proof.
  intros Hf Hpre Hm; unfold Configure; rewrite Hf; simpl.
  now rewrite (mirrors_loop_first_bad _ _ _ _ _ _ _ Hpre Hm).
Qed.





(* ------------------------------------------------------------------ *)
(** ** Witnesses of the further properties *)

Lemma InsertScannerList_inserts_ids_witness :
  InsertScannerList ex_Exec [] "sha256:abc" 2%Z
  = ([] ++ map (fun i => ("sha256:abc", i)) (seq 0 (Z.to_nat 2%Z)), None).
Proof.
  apply InsertScannerList_inserts_ids.
  intros i Hi db; unfold ex_Exec.
  destruct (Nat.eqb i 2) eqn:E; [apply Nat.eqb_eq in E; simpl in Hi; lia | reflexivity].
Defined.

Lemma InsertScannerList_stops_at_error_witness :
  InsertScannerList ex_Exec [] "sha256:abc" 5%Z
  = ([] ++ map (fun i => ("sha256:abc", i)) (seq 0 2),
     Some (ErrText "violates foreign key constraint")).
Proof.
  apply InsertScannerList_stops_at_error.
  - simpl; lia.
  - intros i Hi db; unfold ex_Exec.
    destruct (Nat.eqb i 2) eqn:E; [apply Nat.eqb_eq in E; lia | reflexivity].
  - reflexivity.
Defined.

Lemma Name_injective_witness :
  release ex_updater = release (set_client ex_updater (mkClient (Some 1) [])).
Proof. apply Name_injective. reflexivity. Defined.

Lemma refsToLinks_split_witness :
  split_sp (refsToLinks ex_upd1) = map ref_Href (upd_References ex_upd1).
Proof.
  apply refsToLinks_split.
  - discriminate.
  - repeat constructor.
Defined.

Lemma Parse_append_prefix_witness :
  exists rest, fst (ex_Parse ex_updater "doc3") = fst (ex_Parse ex_updater "doc1") ++ rest.
Proof.
  apply (Parse_append_prefix ex_xml_decode go_time_parse ex_NormalizeSeverity ex_releaseToDist
           ex_updater "doc1" "doc3" [ex_upd1] [ex_upd2; ex_upd3]); reflexivity.
Defined.


Lemma Parse_records_origin_witness :
  v_Updater ex_record = Name ex_updater /\ v_Dist ex_record = ex_releaseToDist (release ex_updater) /\
  exists ups up t p,
    ex_xml_decode "doc1" = Ok ups /\ In up ups /\ go_time_parse (upd_Issued_Date up) = Some t /\
    In p (upd_Packages up) /\
    v_Name ex_record = upd_ID up /\ v_Issued ex_record = Some t /\ v_Links ex_record = refsToLinks up /\
    v_FixedInVersion ex_record = (pkg_Version p ++ "-" ++ pkg_Release p)%string.
Proof.
  apply (Parse_records_origin ex_xml_decode go_time_parse ex_NormalizeSeverity ex_releaseToDist
           ex_updater "doc1").
  vm_compute. right. left. reflexivity.
Defined.

Lemma Fetch_bound_client_no_NewClient_witness :
  Fetch ex_NewClient (ex_RepoMD "abc") ex_Updates (set_client ex_updater (mkClient (Some 1) [])) "x"
  = Fetch (fun _ => Err (ErrText "no route to host")) (ex_RepoMD "abc") ex_Updates
          (set_client ex_updater (mkClient (Some 1) [])) "x".
Proof.
  apply (Fetch_bound_client_no_NewClient _ _ _ _ _ _ (mkClient (Some 1) [])); reflexivity.
Defined.

Lemma Fetch_no_updateinfo_witness :
  Fetch ex_NewClient ex_RepoMD_noinfo ex_Updates ex_updater "abc"
  = (None, "", Some (Errorf "updates repo metadata could not be retrieved"
                      (ErrText ("repo type " ++ UpdateInfo ++ " not found")))).
Proof.
  apply (Fetch_no_updateinfo _ _ _ _ _ (mkClient None []) (mkRepoMD [mkRepo "primary" "p0"])).
  - right; split; reflexivity.
  - reflexivity.
  - reflexivity.
Defined.


Lemma Configure_bad_mirror_witness :
  Configure ex_url_parse (fun c _ _ => (c, Some (ErrText "unreachable"))) ex_updater ex_unmarshal_bad (Some 7)
  = (set_client (set_config ex_updater (15 * Second)%N (["https://ok.example/"] ++ ":bad" :: ["https://never.example/"]))
       (mkClient (Some 7) ["https://ok.example/"]),
     Some (Errorf "failed to create client" (ErrText "missing protocol scheme"))).
Proof.
  apply Configure_bad_mirror.
  - reflexivity.
  - constructor; [reflexivity | constructor].
  - reflexivity.
Defined.

